(** * AttachStep: step membership, attachment strategy and measurement effect

    A shallow embedding of
    [package/src/lib/components/attach-step/AttachStep.component.tsx]
    together with the part of React's element API the component calls
    ([createElement] through JSX, and [cloneElement]).

    Layout of the development:
    - [StepIndex], [checkIndex]: the step-membership check;
    - [jsval], [element]: JavaScript values and React elements, with props
      as finite maps from property names to values;
    - [createElement], [cloneElement]: React's element constructors;
    - [AttachStep]: the render function of the component;
    - [Prog], [AttachStep_effect]: the body of the [useEffect] hook and its
      execution against a layout engine;
    - the theorems. *)

From stdpp Require Import gmap strings list fin_maps pretty.
From Stdlib Require Import Ascii.

#[local] Set Warnings "-register-all".
#[local] Open Scope Z_scope.

(** ** Step indices

    [index: number | Array<number>] and [current: number | undefined].
    Step numbers are integers; they are modelled by [Z] without any range
    restriction, so negative and arbitrarily large indices are inputs as
    well. *)

Inductive StepIndex :=
| Single (i : Z)
| Multi (steps : list Z).

(** [Array.prototype.includes] on an array of integers: a left-to-right scan
    comparing each element with the searched value. *)
Fixpoint Array_includes (arr : list Z) (x : Z) : bool :=
  match arr with
  | [] => false
  | y :: rest => if Z.eqb y x then true else Array_includes rest x
  end.

(** The function [checkIndex] of the source, line by line; the match on
    [index] is the test [Array.isArray(index)]. *)
Definition checkIndex (index : StepIndex) (current : option Z) : bool :=
  match current with
  | None => false
  | Some cur =>
      match index with
      | Multi steps => Array_includes steps cur
      | Single i => Z.eqb cur i
      end
  end.

(** ** String conversion of an index

    [index.toString()] is [Number.prototype.toString] for a single index and
    [Array.prototype.toString], that is [join(",")], for an array. Integers
    print in decimal with a leading minus sign, which is what [pretty] on [Z]
    produces. *)

Fixpoint Array_join (sep : string) (parts : list string) : string :=
  match parts with
  | [] => ""
  | [p] => p
  | p :: rest => p +:+ sep +:+ Array_join sep rest
  end.

Definition Number_toString (n : Z) : string := pretty n.

Definition index_toString (index : StepIndex) : string :=
  match index with
  | Single i => Number_toString i
  | Multi steps => Array_join "," (Number_toString <$> steps)
  end.

(** ** JavaScript values and React elements

    The values that can sit in the props of an element: primitives, plain
    objects (finite maps from property names to values), arrays, functions
    (carrying their source text, which is what converting one to a string
    gives), ref objects as returned by [useRef] (identified by the cell they
    denote) and React elements.

    An element has a type, a key, a ref and props. The type is a host tag
    (a string), a function or class component (a function), or an object
    such as the result of [React.forwardRef] or [React.memo]; component
    types carry their [defaultProps] (empty when the component declares
    none). *)

Inductive jsval :=
| JUndefined
| JNull
| JBool (b : bool)
| JNum (n : Z)
| JStr (s : string)
| JObj (fields : gmap string jsval)
| JArr (items : list jsval)
| JFun (src : string)
| JRef (cell : positive)
| JElem (e : element)
with element :=
| Element (type : eltype) (key : option string) (ref : jsval)
          (props : gmap string jsval)
with eltype :=
| HostType (tag : string)
| FunctionType (name : string) (defaultProps : gmap string jsval)
| ExoticType (name : string) (defaultProps : gmap string jsval).

Definition el_type (e : element) : eltype :=
  match e with Element t _ _ _ => t end.
Definition el_key (e : element) : option string :=
  match e with Element _ k _ _ => k end.
Definition el_ref (e : element) : jsval :=
  match e with Element _ _ r _ => r end.
Definition el_props (e : element) : gmap string jsval :=
  match e with Element _ _ _ p => p end.

(** [typeof children.type] *)
Definition typeof_type (t : eltype) : string :=
  match t with
  | HostType _ => "string"
  | FunctionType _ _ => "function"
  | ExoticType _ _ => "object"
  end.

(** [type.defaultProps], the empty object when there is none. *)
Definition type_defaultProps (t : eltype) : gmap string jsval :=
  match t with
  | HostType _ => ∅
  | FunctionType _ dp => dp
  | ExoticType _ dp => dp
  end.

(** [v === undefined] *)
Definition is_undefined (v : jsval) : bool :=
  match v with
  | JUndefined => true
  | _ => false
  end.

(** Property read [o.k] on an object: a missing property reads as
    [undefined]. *)
Definition js_get (o : gmap string jsval) (k : string) : jsval :=
  default JUndefined (o !! k).

(** [v ?? d] *)
Definition nullish (v d : jsval) : jsval :=
  match v with
  | JUndefined | JNull => d
  | _ => v
  end.

(** The own enumerable properties that object spread [{...v}] copies:
    the fields of an object, the items of an array under their indices, the
    characters of a string under their indices, and nothing for [undefined],
    [null], booleans, numbers and functions. A style prop is a style object,
    an array of styles, a registered style number or a falsy value, so these
    are the cases spread meets in [AttachStep]. *)
Definition indexed_fields (items : list jsval) : gmap string jsval :=
  list_to_map (imap (λ (i : nat) v, (pretty i, v)) items).

Definition object_spread (v : jsval) : gmap string jsval :=
  match v with
  | JObj fields => fields
  | JArr items => indexed_fields items
  | JStr s =>
      indexed_fields
        ((λ c, JStr (String c EmptyString)) <$> String.list_ascii_of_string s)
  | _ => ∅
  end.

(** String conversion ['' + v], used by React for keys. Inside
    [Array.prototype.join] the items [undefined] and [null] print as the
    empty string. *)
Fixpoint js_toString (v : jsval) : string :=
  match v with
  | JUndefined => "undefined"
  | JNull => "null"
  | JBool true => "true"
  | JBool false => "false"
  | JNum n => Number_toString n
  | JStr s => s
  | JObj _ => "[object Object]"
  | JArr items =>
      Array_join ","
        ((fix each (l : list jsval) : list string :=
            match l with
            | [] => []
            | x :: l' =>
                (match x with
                 | JUndefined | JNull => ""
                 | _ => js_toString x
                 end) :: each l'
            end) items)
  | JFun src => src
  | JRef _ => "[object Object]"
  | JElem _ => "[object Object]"
  end.

(** ** React's element constructors

    [RESERVED_PROPS] of React: these names of a config object never become
    props. *)
Definition reserved_prop (k : string) : bool :=
  bool_decide (k ∈ ["key"; "ref"; "__self"; "__source"]).

(** The key and the ref a config object asks for:
    [config.ref !== undefined] and [config.key !== undefined], the key
    converted to a string. *)
Definition config_ref (config : gmap string jsval) (dflt : jsval) : jsval :=
  if is_undefined (js_get config "ref") then dflt else js_get config "ref".

Definition config_key (config : gmap string jsval) (dflt : option string)
  : option string :=
  if is_undefined (js_get config "key") then dflt
  else Some (js_toString (js_get config "key")).

(** [React.createElement(type, config, child)] with exactly one child
    argument, which is what the JSX of the wrapper compiles to: the props are
    the non-reserved properties of [config], then [children], then the
    default props for every prop that reads [undefined]. *)
Definition createElement (type : eltype) (config : gmap string jsval)
    (child : jsval) : element :=
  let props :=
    <["children" := child]>
      (filter (λ kv, reserved_prop kv.1 = false) config) in
  let defaults :=
    filter (λ kv, is_undefined (js_get props kv.1) = true)
           (type_defaultProps type) in
  Element type (config_key config None) (config_ref config JNull)
          (defaults ∪ props).

(** [React.cloneElement(element, config, child)] with a non-null [config] and
    exactly one child argument. The props start as a copy of
    [element.props]; every non-reserved own property of [config] overwrites
    the copy, an [undefined] one with the default prop of that name; then
    [children] is set. Key and ref are the element's unless [config] has
    them. *)
Definition cloneElement (e : element) (config : gmap string jsval)
    (child : jsval) : element :=
  let defaultProps := type_defaultProps (el_type e) in
  let overrides :=
    map_imap (λ k v,
        if reserved_prop k then None
        else Some (if is_undefined v then js_get defaultProps k else v))
      config in
  Element (el_type e)
          (config_key config (el_key e))
          (config_ref config (el_ref e))
          (<["children" := child]> (overrides ∪ el_props e)).

(** The invariant of the elements React hands to a component: [key] and
    [ref] are not props (they are fields of the element), and the default
    props are resolved, so a prop that is present but [undefined] has no
    default. *)
Definition element_resolved (e : element) : Prop :=
  is_undefined (js_get (el_props e) "key") = true ∧
  is_undefined (js_get (el_props e) "ref") = true ∧
  ∀ k, el_props e !! k = Some JUndefined →
       js_get (type_defaultProps (el_type e)) k = JUndefined.

(** ** The component

    React Native's [View]: a [forwardRef] component without default props. *)
Definition View : eltype := ExoticType "View" ∅.

(** [{ alignSelf: fill ? "stretch" : "flex-start" }] *)
Definition baseStyle (fill : bool) : gmap string jsval :=
  {[ "alignSelf" := JStr (if fill then "stretch" else "flex-start") ]}.

(** The render function [AttachStep]; [fill] is optional and defaults to
    [false], [childRef] is the ref object [useRef] returned. The wrapper of
    the first branch is the JSX element [<View ...>{cloneElement(...)}</View>];
    in [{ alignSelf: ..., ...childStyle }] the properties spread last win. *)
Definition AttachStep (children : element) (fill : option bool)
    (childRef : positive) : element :=
  let fill := default false fill in
  if String.eqb (typeof_type (el_type children)) "function" then
    let style := js_get (el_props children) "style" in
    let rest := delete "style" (el_props children) in
    let childStyle := nullish style (JObj ∅) in
    createElement View
      {[ "testID" := JStr "attach-wrapper-view";
         "ref" := JRef childRef;
         "style" := JObj (object_spread childStyle ∪ baseStyle fill);
         "collapsable" := JBool false;
         "focusable" := JBool false ]}
      (JElem (cloneElement children rest
                (js_get (el_props children) "children")))
  else
    cloneElement children
      (<["ref" := JRef childRef]> (el_props children))
      (js_get (el_props children) "children").

(** ** The measurement effect

    A geometry snapshot [{ height, width, x, y }]. The coordinates are only
    passed on, never computed with, so their type is a parameter. *)
Module Spot.
Record t (R : Type) := make { height : R; width : R; x : R; y : R }.
Arguments make {R} _ _ _ _.
Arguments height {R} _.
Arguments width {R} _.
Arguments x {R} _.
Arguments y {R} _.
End Spot.

(** What an effect can do: ask the layout engine to measure a mounted view,
    leaving a callback and going on, or call the controller's [changeSpot]. *)
Inductive Prog (R : Type) :=
| Done
| MeasureInWindow (view : positive) (callback : R → R → R → R → Prog R)
                  (next : Prog R)
| ChangeSpot (spot : Spot.t R) (next : Prog R).
Arguments Done {R}.
Arguments MeasureInWindow {R} _ _ _.
Arguments ChangeSpot {R} _ _.

(** The function passed to [useEffect]. [mounted] is [childRef.current] at
    the time the effect runs: the view the ref is bound to, or [None] while
    it is [null]; the optional call [?.] skips the request then. *)
Definition AttachStep_effect {R : Type} (index : StepIndex)
    (current : option Z) (mounted : option positive) : Prog R :=
  if checkIndex index current then
    match mounted with
    | Some view =>
        MeasureInWindow view
          (λ x y width height,
             ChangeSpot (Spot.make height width x y) Done)
          Done
    | None => Done
    end
  else Done.

(** What the outside sees of a run. *)
Inductive Event (R : Type) :=
| MeasureRequested (view : positive)
| SpotChanged (spot : Spot.t R).
Arguments MeasureRequested {R} _.
Arguments SpotChanged {R} _.

(** Running a program against a layout engine. [engine view] is the window
    rectangle [(x, y, width, height)] the engine reports for [view], or
    [None] if it never answers. Measurement is asynchronous: the callback
    runs, once, after the code that issued the request has finished. *)
Fixpoint run {R : Type} (engine : positive → option (R * R * R * R))
    (p : Prog R) : list (Event R) :=
  match p with
  | Done => []
  | MeasureInWindow view callback next =>
      MeasureRequested view :: run engine next ++
        match engine view with
        | Some (x, y, width, height) => run engine (callback x y width height)
        | None => []
        end
  | ChangeSpot spot next => SpotChanged spot :: run engine next
  end.

Definition is_SpotChanged {R : Type} (ev : Event R) : bool :=
  match ev with MeasureRequested _ => false | SpotChanged _ => true end.

(** The dependency list [[changeSpot, current, index.toString()]] of the
    effect; [changeSpot] is a function, compared by identity. React runs the
    effect again after a render when some dependency differs from the one of
    the previous render. *)
Record EffectDeps := {
  dep_changeSpot : positive;
  dep_current : option Z;
  dep_index : string;
}.

Definition AttachStep_deps (changeSpot : positive) (current : option Z)
    (index : StepIndex) : EffectDeps :=
  {| dep_changeSpot := changeSpot;
     dep_current := current;
     dep_index := index_toString index |}.

Definition areHookInputsEqual (next prev : EffectDeps) : bool :=
  bool_decide (dep_changeSpot next = dep_changeSpot prev) &&
  bool_decide (dep_current next = dep_current prev) &&
  bool_decide (dep_index next = dep_index prev).

(** ** Sample inputs

    A function component with a style, a title and a text child; a host
    element with the same props; a forwarding component. *)
Definition cardProps : gmap string jsval :=
  {[ "style" := JObj {[ "margin" := JNum 8 ]};
     "title" := JStr "Hello";
     "children" := JStr "tap me" ]}.

Definition card : element :=
  Element (FunctionType "Card" ∅) (Some "first") JNull cardProps.

Definition hostText : element :=
  Element (HostType "RCTText") None JNull cardProps.

Definition pressable : element :=
  Element (ExoticType "Pressable" {[ "title" := JStr "untitled" ]})
          None JNull cardProps.

(** Function components whose style is an array of styles, and a
    registered style (a number). *)
Definition listItem : element :=
  Element (FunctionType "ListItem" ∅) None JNull
    {[ "style" := JArr [JObj {[ "alignSelf" := JStr "center" ]};
                        JObj {[ "margin" := JNum 4 ]}] ]}.

Definition badge : element :=
  Element (FunctionType "Badge" ∅) None JNull {[ "style" := JNum 12 ]}.

Definition mockEngine : positive → option (Z * Z * Z * Z) :=
  λ _, Some (10, 20, 100, 50).

(** * Theorems *)

(** ** The membership check *)

Lemma Array_includes_elem_of (arr : list Z) (x : Z) :
  Array_includes arr x = true ↔ x ∈ arr.
Proof.
  induction arr as [|y arr IH]; simpl.
  - split; [discriminate | by intros ?%elem_of_nil].
  - rewrite elem_of_cons. destruct (Z.eqb_spec y x) as [->|Hne].
    + split; auto.
    + rewrite IH. split; [auto | intros [->|?]; [done | auto]].
Qed.

Lemma Array_includes_Permutation (arr arr' : list Z) (x : Z) :
  arr ≡ₚ arr' → Array_includes arr x = Array_includes arr' x.
Proof.
  intros Hp. apply eq_true_iff_eq.
  rewrite !Array_includes_elem_of. by rewrite Hp.
Qed.

(** C1. With a defined active step [a]: for an array index the check is
    true exactly when [a] is an element of the array, whatever the order of
    the elements (permuting the array does not change the result); for a
    single index [i] it is true exactly when [a = i]. *)
Theorem checkIndex_membership :
  (∀ (steps : list Z) (a : Z),
      checkIndex (Multi steps) (Some a) = true ↔ a ∈ steps) ∧
  (∀ (steps steps' : list Z) (a : Z),
      steps ≡ₚ steps' →
      checkIndex (Multi steps) (Some a) = checkIndex (Multi steps') (Some a)) ∧
  (∀ (i a : Z), checkIndex (Single i) (Some a) = true ↔ a = i).
Proof.
  split_and!.
  - intros steps a. apply Array_includes_elem_of.
  - intros steps steps' a Hp. by apply Array_includes_Permutation.
  - intros i a. simpl. apply Z.eqb_eq.
Qed.

(** A single index and the array holding just that index are told apart
    neither by the check nor by the string conversion. *)
Lemma Single_as_Multi (i : Z) :
  index_toString (Single i) = index_toString (Multi [i]) ∧
  ∀ current, checkIndex (Single i) current = checkIndex (Multi [i]) current.
Proof.
  split; [reflexivity|]. intros [a|]; [|reflexivity].
  cbn [checkIndex Array_includes]. rewrite (Z.eqb_sym a i).
  by destruct (i =? a).
Qed.

(** ** The effect *)

Lemma AttachStep_effect_inactive {R : Type} index current mounted :
  checkIndex index current = false →
  @AttachStep_effect R index current mounted = Done.
Proof. intros H. unfold AttachStep_effect. by rewrite H. Qed.

(** C2. With no active step the check is false for every index, a single
    integer or an array, of any sign and size, and the effect is the empty
    program: run against any engine it issues no measurement request (and
    nothing else). *)
Theorem checkIndex_undefined :
  ∀ (index : StepIndex),
    checkIndex index None = false ∧
    ∀ (R : Type) (mounted : option positive)
      (engine : positive → option (R * R * R * R)),
      AttachStep_effect index None mounted = @Done R ∧
      run engine (AttachStep_effect index None mounted) = [].
Proof. intros index. split; [done | intros R mounted engine; done]. Qed.

(** C6. When the wrapper is the active step, the ref is bound to a view and
    the engine measures that view as [(x, y, width, height)], a run of the
    effect consists of the request followed by one [changeSpot] call, whose
    argument has exactly these four values; in particular [changeSpot] is
    called exactly once. *)
Theorem effect_reports_measurement {R : Type} (index : StepIndex)
    (current : option Z) (view : positive)
    (engine : positive → option (R * R * R * R)) (x y width height : R) :
  checkIndex index current = true →
  engine view = Some (x, y, width, height) →
  run engine (AttachStep_effect index current (Some view)) =
    [MeasureRequested view;
     SpotChanged {| Spot.height := height; Spot.width := width;
                    Spot.x := x; Spot.y := y |}] ∧
  length (filter (λ ev, is_SpotChanged ev = true)
            (run engine (AttachStep_effect index current (Some view)))) = 1%nat.
Proof.
  intros Hactive Hengine. unfold AttachStep_effect. rewrite Hactive.
  simpl. rewrite Hengine. simpl. split; reflexivity.
Qed.

Lemma effect_reports_measurement_witness :
  checkIndex (Single 1) (Some 1) = true ∧
  mockEngine 7%positive = Some (10, 20, 100, 50) ∧
  run mockEngine (AttachStep_effect (Single 1) (Some 1) (Some 7%positive)) =
    [MeasureRequested 7%positive;
     SpotChanged {| Spot.height := 50; Spot.width := 100;
                    Spot.x := 10; Spot.y := 20 |}].
Proof.
  split; [reflexivity | split; [reflexivity |]].
  apply (effect_reports_measurement (Single 1) (Some 1) 7%positive mockEngine
           10 20 100 50); reflexivity.
Defined.

(** C7. When the check is false the effect is the empty program: whatever
    the ref is bound to and whatever the engine would answer, no measurement
    is requested and [changeSpot] is not called. *)
Theorem effect_idle_when_inactive {R : Type} (index : StepIndex)
    (current : option Z) (mounted : option positive)
    (engine : positive → option (R * R * R * R)) :
  checkIndex index current = false →
  AttachStep_effect index current mounted = @Done R ∧
  run engine (AttachStep_effect index current mounted) = [].
Proof.
  intros H. by rewrite (AttachStep_effect_inactive index current mounted H).
Qed.

Lemma effect_idle_when_inactive_witness :
  checkIndex (Multi [1; 2; 3]) (Some 4) = false ∧
  run mockEngine
    (AttachStep_effect (Multi [1; 2; 3]) (Some 4) (Some 7%positive)) = [].
Proof.
  split; [reflexivity |].
  apply (effect_idle_when_inactive (Multi [1; 2; 3]) (Some 4)
           (Some 7%positive) mockEngine). reflexivity.
Defined.

(** C8. When the ref is unresolved ([childRef.current] is [null]) the effect
    is the empty program for every index and active step, also an active
    one: no request is made, [changeSpot] is not called, and there is
    nothing else the program does. *)
Theorem effect_skips_unresolved_ref :
  ∀ (R : Type) (index : StepIndex) (current : option Z)
    (engine : positive → option (R * R * R * R)),
    AttachStep_effect index current None = @Done R ∧
    run engine (AttachStep_effect index current None) = [].
Proof.
  intros R index current engine. unfold AttachStep_effect.
  by destruct (checkIndex index current).
Qed.

(** C9. The effect's dependency for the index is its string conversion. The
    arrays [[1,2]] and [[2,1]] have the same elements and the check agrees on
    them for every active step, defined or not, yet their dependencies
    differ, so React sees a change between them. *)
Theorem effect_key_order_sensitive :
  (∀ changeSpot current index,
      dep_index (AttachStep_deps changeSpot current index) =
      index_toString index) ∧
  (∀ a : Z, a ∈ [1; 2] ↔ a ∈ [2; 1]) ∧
  (∀ current,
      checkIndex (Multi [1; 2]) current = checkIndex (Multi [2; 1]) current) ∧
  index_toString (Multi [1; 2]) ≠ index_toString (Multi [2; 1]) ∧
  (∀ changeSpot current,
      areHookInputsEqual (AttachStep_deps changeSpot current (Multi [2; 1]))
                         (AttachStep_deps changeSpot current (Multi [1; 2]))
      = false).
Proof.
  split_and!.
  - done.
  - intros a. rewrite !elem_of_cons, !elem_of_nil. tauto.
  - intros [a|]; [|done]. cbn [checkIndex Array_includes].
    by destruct (1 =? a), (2 =? a).
  - vm_compute. discriminate.
  - intros changeSpot current. unfold areHookInputsEqual.
    apply andb_false_intro2, bool_decide_eq_false_2.
    vm_compute. discriminate.
Qed.

(** ** React's constructors *)

Lemma js_get_lookup (o o' : gmap string jsval) (k : string) :
  o !! k = o' !! k → js_get o k = js_get o' k.
Proof. unfold js_get. by intros ->. Qed.

Lemma js_get_insert_ne (o : gmap string jsval) (k k' : string) (v : jsval) :
  k ≠ k' → js_get (<[k := v]> o) k' = js_get o k'.
Proof. intros Hne. apply js_get_lookup. by rewrite lookup_insert_ne. Qed.

Lemma js_get_delete_ne (o : gmap string jsval) (k k' : string) :
  k ≠ k' → js_get (delete k o) k' = js_get o k'.
Proof. intros Hne. apply js_get_lookup. by rewrite lookup_delete_ne. Qed.

Lemma cloneElement_type e config child :
  el_type (cloneElement e config child) = el_type e.
Proof. reflexivity. Qed.

Lemma cloneElement_children e config child :
  el_props (cloneElement e config child) !! "children" = Some child.
Proof. unfold cloneElement. simpl. apply lookup_insert_eq. Qed.

(** A prop of the clone other than [children]: the config's, when the config
    has a non-reserved property of that name, and the element's otherwise.
    Nothing in [cloneElement] removes a prop of the element. *)
Lemma cloneElement_lookup e config child (k : string) :
  k ≠ "children" →
  el_props (cloneElement e config child) !! k =
    match (if reserved_prop k then None else config !! k) with
    | Some v =>
        Some (if is_undefined v
              then js_get (type_defaultProps (el_type e)) k else v)
    | None => el_props e !! k
    end.
Proof.
  intros Hk. unfold cloneElement. simpl.
  rewrite lookup_insert_ne by done.
  rewrite lookup_union, map_lookup_imap.
  destruct (reserved_prop k).
  - destruct (config !! k); simpl; by rewrite (left_id None _).
  - destruct (config !! k) as [v|]; simpl.
    + by destruct (el_props e !! k).
    + by rewrite (left_id None _).
Qed.

(** Cloning with a config that only repeats props of a resolved element
    leaves every prop but [children] as it was. *)
Lemma cloneElement_repeats e config child :
  element_resolved e →
  (∀ k v, reserved_prop k = false → config !! k = Some v →
          el_props e !! k = Some v) →
  ∀ k, k ≠ "children" →
       el_props (cloneElement e config child) !! k = el_props e !! k.
Proof.
  intros (_ & _ & Hdef) Hsub k Hk. rewrite cloneElement_lookup by done.
  destruct (reserved_prop k) eqn:Hres; [done|].
  destruct (config !! k) as [v|] eqn:Hcfg; [|done].
  pose proof (Hsub k v Hres Hcfg) as Hprop. rewrite Hprop.
  destruct v; simpl; try done.
  by rewrite (Hdef k Hprop).
Qed.

Lemma createElement_lookup_View config child (k : string) :
  el_props (createElement View config child) !! k =
    if decide (k = "children") then Some child
    else if reserved_prop k then None else config !! k.
Proof.
  unfold createElement. cbn [el_props type_defaultProps View].
  rewrite map_filter_empty, (left_id ∅ _).
  destruct (decide (k = "children")) as [->|Hk].
  - apply lookup_insert_eq.
  - rewrite lookup_insert_ne by done.
    destruct (reserved_prop k) eqn:Hres.
    + apply map_lookup_filter_None. right. intros v _. simpl. by rewrite Hres.
    + destruct (config !! k) as [v|] eqn:Hcfg.
      * by apply map_lookup_filter_Some.
      * apply map_lookup_filter_None. by left.
Qed.

(** [createElement] resolves the default props. *)
Lemma createElement_resolves type config child (k : string) :
  el_props (createElement type config child) !! k = Some JUndefined →
  js_get (type_defaultProps type) k = JUndefined.
Proof.
  unfold createElement. cbn [el_props].
  set (props := <["children" := child]> _).
  rewrite lookup_union.
  destruct (filter _ (type_defaultProps type) !! k) as [d|] eqn:Hd.
  - apply map_lookup_filter_Some in Hd as [Hd _].
    destruct (props !! k); simpl; intros [= ->]; unfold js_get; by rewrite Hd.
  - rewrite (left_id None _). intros Hp.
    apply map_lookup_filter_None in Hd as [Hd|Hd].
    + unfold js_get. by rewrite Hd.
    + unfold js_get at 1.
      destruct (type_defaultProps type !! k) as [d|] eqn:Hdk; [|done].
      exfalso. apply (Hd d eq_refl). simpl. unfold js_get. by rewrite Hp.
Qed.

(** Whatever the config, [createElement] yields a resolved element, as long
    as the component does not declare [key] or [ref] as default props. *)
Lemma createElement_resolved type config child :
  js_get (type_defaultProps type) "key" = JUndefined →
  js_get (type_defaultProps type) "ref" = JUndefined →
  element_resolved (createElement type config child).
Proof.
  intros Hkey Href.
  assert (Hreserved : ∀ k : string,
    reserved_prop k = true → k ≠ "children" →
    js_get (type_defaultProps type) k = JUndefined →
    is_undefined (js_get (el_props (createElement type config child)) k)
      = true).
  { intros k Hres Hk Hdp. unfold createElement. cbn [el_props].
    set (props := <["children" := child]> _).
    assert (Hp : props !! k = None).
    { subst props. rewrite lookup_insert_ne by done.
      apply map_lookup_filter_None. right. intros v _. simpl.
      by rewrite Hres. }
    unfold js_get at 1. rewrite lookup_union, Hp, (right_id None _).
    destruct (filter _ (type_defaultProps type) !! k) as [d|] eqn:Hd;
      [|done].
    apply map_lookup_filter_Some in Hd as [Hd _].
    unfold js_get in Hdp. rewrite Hd in Hdp. simpl in Hdp. by subst d. }
  split_and!.
  - by apply Hreserved.
  - by apply Hreserved.
  - intros k. apply createElement_resolves.
Qed.

Lemma card_resolved : element_resolved card.
Proof.
  split_and!; [reflexivity | reflexivity |].
  intros k _. unfold js_get. cbn [card el_type type_defaultProps].
  by rewrite lookup_empty.
Qed.

Lemma pressable_resolved : element_resolved pressable.
Proof.
  split_and!; [reflexivity | reflexivity |].
  intros k. cbn [pressable el_props el_type type_defaultProps].
  unfold cardProps. intros Hk.
  repeat (rewrite lookup_insert in Hk; case_decide; [discriminate Hk|]).
  rewrite lookup_singleton in Hk. by case_decide.
Qed.

(** ** The two branches of [AttachStep] *)

Lemma AttachStep_direct children fill childRef :
  typeof_type (el_type children) ≠ "function" →
  AttachStep children fill childRef =
    cloneElement children
      (<["ref" := JRef childRef]> (el_props children))
      (js_get (el_props children) "children").
Proof.
  intros Hty. unfold AttachStep.
  destruct (String.eqb_spec (typeof_type (el_type children)) "function");
    [done | reflexivity].
Qed.

Lemma AttachStep_wrapped children fill childRef :
  typeof_type (el_type children) = "function" →
  AttachStep children fill childRef =
    createElement View
      {[ "testID" := JStr "attach-wrapper-view";
         "ref" := JRef childRef;
         "style" :=
           JObj (object_spread
                   (nullish (js_get (el_props children) "style") (JObj ∅))
                 ∪ baseStyle (default false fill));
         "collapsable" := JBool false;
         "focusable" := JBool false ]}
      (JElem (cloneElement children (delete "style" (el_props children))
                (js_get (el_props children) "children"))).
Proof.
  intros Hty. unfold AttachStep. rewrite Hty. reflexivity.
Qed.

(** X5. The child rendered below the wrapper: the clone keeps the type, key
    and ref of the original and every one of its props, [style] included,
    since [cloneElement] starts from a copy of the original props and [rest]
    only lacks [style]. *)
Lemma AttachStep_wrapped_child children fill childRef :
  typeof_type (el_type children) = "function" →
  element_resolved children →
  ∃ inner,
    el_props (AttachStep children fill childRef) !! "children"
      = Some (JElem inner) ∧
    el_type inner = el_type children ∧
    el_key inner = el_key children ∧
    el_ref inner = el_ref children ∧
    (∀ k, k ≠ "children" → el_props inner !! k = el_props children !! k) ∧
    el_props inner !! "children"
      = Some (js_get (el_props children) "children").
Proof.
  intros Hty Hres. rewrite AttachStep_wrapped by done.
  eexists. split; [by rewrite createElement_lookup_View|].
  destruct Hres as (Hkey & Href & Hdef).
  split_and!.
  - reflexivity.
  - unfold cloneElement, config_key. cbn [el_key].
    by rewrite js_get_delete_ne, Hkey.
  - unfold cloneElement, config_ref. cbn [el_ref].
    by rewrite js_get_delete_ne, Href.
  - apply cloneElement_repeats; [done|].
    intros k v _ Hk. by apply lookup_delete_Some in Hk as [_ Hk].
  - apply cloneElement_children.
Qed.

(** C3. At the function component [card], whose props are a style
    [{ margin: 8 }], a title and a text child, the element rendered below
    the wrapper still has the style prop of the original: it is not
    stripped. The other props and the children are those of the original. *)
Theorem AttachStep_card_keeps_style :
  ∃ inner,
    js_get (el_props (AttachStep card None 1%positive)) "children"
      = JElem inner ∧
    el_props card !! "style" = Some (JObj {[ "margin" := JNum 8 ]}) ∧
    el_props inner !! "style" = Some (JObj {[ "margin" := JNum 8 ]}) ∧
    el_props inner !! "title" = Some (JStr "Hello") ∧
    el_props inner !! "children" = Some (JStr "tap me").
Proof.
  eexists. split; [vm_compute; reflexivity|].
  split_and!; vm_compute; reflexivity.
Qed.

(** The wrapper in terms of what the spread copies. For a function
    component as child and every value of [fill]
    (absent counts as [false]), the rendered element is a [View] that holds
    the ref, has no key, is neither collapsable nor focusable, carries the
    fixed test identifier, and whose style is the child's style spread over
    the base style: every property of the child's style is in it with the
    child's value, [alignSelf] is ["stretch"] for [fill] and ["flex-start"]
    otherwise when the child's style does not set it, and there is nothing
    else in it. A child without style ([undefined] or [null]) leaves the
    base style alone. *)
Theorem AttachStep_wrapper (children : element) (fill : option bool)
    (childRef : positive) :
  typeof_type (el_type children) = "function" →
  let wrapper := AttachStep children fill childRef in
  let childStyle :=
    object_spread (nullish (js_get (el_props children) "style") (JObj ∅)) in
  let alignSelf :=
    JStr (if default false fill then "stretch" else "flex-start") in
  el_type wrapper = View ∧
  el_ref wrapper = JRef childRef ∧
  el_key wrapper = None ∧
  el_props wrapper !! "collapsable" = Some (JBool false) ∧
  el_props wrapper !! "focusable" = Some (JBool false) ∧
  el_props wrapper !! "testID" = Some (JStr "attach-wrapper-view") ∧
  ∃ merged,
    el_props wrapper !! "style" = Some (JObj merged) ∧
    (∀ k v, childStyle !! k = Some v → merged !! k = Some v) ∧
    (childStyle !! "alignSelf" = None →
     merged !! "alignSelf" = Some alignSelf) ∧
    (∀ k, k ≠ "alignSelf" → childStyle !! k = None → merged !! k = None) ∧
    (js_get (el_props children) "style" = JUndefined ∨
     js_get (el_props children) "style" = JNull →
     merged = {[ "alignSelf" := alignSelf ]}).
Proof.
  intros Hty wrapper childStyle alignSelf. subst wrapper.
  rewrite AttachStep_wrapped by done.
  split_and!; try (by rewrite createElement_lookup_View); try reflexivity.
  eexists. split; [by rewrite createElement_lookup_View|].
  fold childStyle. unfold baseStyle. fold alignSelf.
  split_and!.
  - intros k v Hk. by apply lookup_union_Some_l.
  - intros Hk. rewrite lookup_union_r by done. apply lookup_singleton_eq.
  - intros k Hne Hk. rewrite lookup_union_r by done.
    by apply lookup_singleton_ne.
  - intros Hnone. subst childStyle.
    destruct Hnone as [-> | ->]; simpl; by rewrite (left_id ∅ _).
Qed.

Lemma AttachStep_wrapper_witness :
  typeof_type (el_type card) = "function" ∧
  el_type (AttachStep card (Some true) 1%positive) = View ∧
  el_ref (AttachStep card (Some true) 1%positive) = JRef 1%positive ∧
  ∃ merged,
    el_props (AttachStep card (Some true) 1%positive) !! "style"
      = Some (JObj merged) ∧
    merged !! "margin" = Some (JNum 8) ∧
    merged !! "alignSelf" = Some (JStr "stretch").
Proof.
  split; [reflexivity|].
  destruct (AttachStep_wrapper card (Some true) 1%positive)
    as (Hty & Href & _ & _ & _ & _ & merged & Hst & Hchild & Halign & _);
    [reflexivity|].
  split; [exact Hty|]. split; [exact Href|].
  exists merged. split; [exact Hst|]. split.
  - apply Hchild. vm_compute. reflexivity.
  - apply Halign. vm_compute. reflexivity.
Defined.

(** C5. For a child whose type is not a function (a host element, or an
    object such as a forwarding component), the rendered element is the
    child itself with the ref attached: same type (so no wrapper), same key,
    the ref object as ref (in place of a ref the child had), every prop
    other than [children] present or absent exactly as in the child, and
    [children] set to the child's children; every prop reads as it did on
    the child. *)
Theorem AttachStep_primitive_clone (children : element) (fill : option bool)
    (childRef : positive) :
  typeof_type (el_type children) ≠ "function" →
  element_resolved children →
  el_type (AttachStep children fill childRef) = el_type children ∧
  el_key (AttachStep children fill childRef) = el_key children ∧
  el_ref (AttachStep children fill childRef) = JRef childRef ∧
  (∀ k, k ≠ "children" →
        el_props (AttachStep children fill childRef) !! k
          = el_props children !! k) ∧
  el_props (AttachStep children fill childRef) !! "children"
    = Some (js_get (el_props children) "children") ∧
  (∀ k, js_get (el_props (AttachStep children fill childRef)) k
          = js_get (el_props children) k).
Proof.
  intros Hty Hres. rewrite AttachStep_direct by done.
  pose proof Hres as (Hkey & _ & _).
  assert (Hothers : ∀ k, k ≠ "children" →
    el_props (cloneElement children
                (<["ref" := JRef childRef]> (el_props children))
                (js_get (el_props children) "children")) !! k
      = el_props children !! k).
  { apply cloneElement_repeats; [done|].
    intros k v Hk Hcfg. rewrite lookup_insert_ne in Hcfg; [done|].
    intros <-. discriminate Hk. }
  split_and!.
  - reflexivity.
  - unfold cloneElement, config_key. cbn [el_key].
    by rewrite js_get_insert_ne, Hkey.
  - unfold cloneElement, config_ref. cbn [el_ref].
    unfold js_get. by rewrite lookup_insert_eq.
  - exact Hothers.
  - apply cloneElement_children.
  - intros k. destruct (decide (k = "children")) as [->|Hk].
    + unfold js_get at 1. by rewrite cloneElement_children.
    + apply js_get_lookup. by apply Hothers.
Qed.

Lemma AttachStep_primitive_clone_witness :
  typeof_type (el_type pressable) ≠ "function" ∧
  element_resolved pressable ∧
  el_type (AttachStep pressable None 1%positive) = el_type pressable ∧
  el_ref (AttachStep pressable None 1%positive) = JRef 1%positive ∧
  el_props (AttachStep pressable None 1%positive) !! "title"
    = Some (JStr "Hello") ∧
  el_props (AttachStep pressable None 1%positive) !! "children"
    = Some (JStr "tap me").
Proof.
  assert (Hty : typeof_type (el_type pressable) ≠ "function")
    by (vm_compute; discriminate).
  destruct (AttachStep_primitive_clone pressable None 1%positive Hty
              pressable_resolved)
    as (Htype & _ & Href & Hothers & Hchildren & _).
  split; [exact Hty|]. split; [exact pressable_resolved|].
  split; [exact Htype|]. split; [exact Href|]. split.
  - rewrite Hothers; [vm_compute; reflexivity | discriminate].
  - exact Hchildren.
Defined.

(** C10. For a child whose type is not a function the rendered element does
    not depend on [fill]: any two values of the flag, given or left out,
    give equal elements. *)
Theorem AttachStep_primitive_ignores_fill (children : element)
    (fill fill' : option bool) (childRef : positive) :
  typeof_type (el_type children) ≠ "function" →
  AttachStep children fill childRef = AttachStep children fill' childRef.
Proof.
  intros Hty. by rewrite !AttachStep_direct.
Qed.

Lemma AttachStep_primitive_ignores_fill_witness :
  typeof_type (el_type hostText) ≠ "function" ∧
  AttachStep hostText (Some true) 1%positive
    = AttachStep hostText (Some false) 1%positive.
Proof.
  assert (Hty : typeof_type (el_type hostText) ≠ "function")
    by (vm_compute; discriminate).
  split; [exact Hty|].
  exact (AttachStep_primitive_ignores_fill hostText (Some true) (Some false)
           1%positive Hty).
Defined.

(** * Further properties *)

(** ** The check, element by element *)

(** X1. An array index is active exactly when one of its elements, taken as
    a single index, is active; with no active step none is. *)
Theorem checkIndex_Multi_existsb :
  ∀ (steps : list Z) (current : option Z),
    checkIndex (Multi steps) current
      = existsb (λ i, checkIndex (Single i) current) steps.
Proof.
  intros steps [a|]; cbn [checkIndex].
  - induction steps as [|i steps IH]; [done|].
    cbn [Array_includes existsb]. rewrite IH, (Z.eqb_sym a i).
    by destruct (i =? a).
  - by induction steps.
Qed.

(** ** Characters of a printed number *)

Ltac elem_here :=
  repeat first [apply list_elem_of_here | apply list_elem_of_further].

Lemma chars_app (s t : string) :
  String.list_ascii_of_string (s +:+ t)
    = String.list_ascii_of_string s ++ String.list_ascii_of_string t.
Proof. induction s as [|c s IH]; simpl; [done | by rewrite IH]. Qed.

Lemma pretty_N_char_digit (x : N) :
  pretty_N_char x ∈ String.list_ascii_of_string "0123456789".
Proof. unfold pretty_N_char. simpl. repeat case_match; elem_here. Qed.

Lemma pretty_N_go_chars (c : Ascii.ascii) (x : N) (s : string) :
  c ∈ String.list_ascii_of_string (pretty_N_go x s) →
  c ∈ String.list_ascii_of_string s ∨
  c ∈ String.list_ascii_of_string "0123456789".
Proof.
  revert s. induction (N.lt_wf_0 x) as [x _ IH]; intros s.
  assert (x = 0 ∨ 0 < x)%N as [->|Hpos] by lia.
  - rewrite pretty_N_go_0. by left.
  - rewrite pretty_N_go_step by done. intros Hc.
    apply IH in Hc; [|by apply N.div_lt].
    destruct Hc as [Hc|Hc]; [|by right].
    simpl in Hc. apply elem_of_cons in Hc as [->|Hc]; [|by left].
    right. apply pretty_N_char_digit.
Qed.

Lemma pretty_N_go_nonempty (x : N) (s : string) :
  s ≠ "" → pretty_N_go x s ≠ "".
Proof.
  revert s. induction (N.lt_wf_0 x) as [x _ IH]; intros s Hs.
  assert (x = 0 ∨ 0 < x)%N as [->|Hpos] by lia.
  - by rewrite pretty_N_go_0.
  - rewrite pretty_N_go_step by done. apply IH; [by apply N.div_lt | done].
Qed.

Lemma pretty_N_chars (c : Ascii.ascii) (x : N) :
  c ∈ String.list_ascii_of_string (pretty x) →
  c ∈ String.list_ascii_of_string "0123456789".
Proof.
  unfold pretty, pretty_N. case_decide.
  - simpl. intros ->%list_elem_of_singleton. elem_here.
  - intros Hc. apply pretty_N_go_chars in Hc as [Hc|Hc]; [|done].
    simpl in Hc. by apply elem_of_nil in Hc.
Qed.

Lemma pretty_N_nonempty (x : N) : pretty x ≠ "".
Proof.
  unfold pretty, pretty_N. case_decide; [done|].
  rewrite pretty_N_go_step by lia. by apply pretty_N_go_nonempty.
Qed.

Lemma Number_toString_chars (c : Ascii.ascii) (n : Z) :
  c ∈ String.list_ascii_of_string (Number_toString n) →
  c ∈ String.list_ascii_of_string "-0123456789".
Proof.
  unfold Number_toString, pretty, pretty_Z. destruct n as [|p|p].
  - simpl. intros ->%list_elem_of_singleton. elem_here.
  - intros Hc. apply (pretty_N_chars c (N.pos p)) in Hc.
    simpl. by apply list_elem_of_further.
  - rewrite chars_app. simpl.
    intros [->|Hc]%elem_of_cons; [apply list_elem_of_here|].
    apply (pretty_N_chars c (N.pos p)) in Hc. by apply list_elem_of_further.
Qed.

Lemma Number_toString_nonempty (n : Z) : Number_toString n ≠ "".
Proof.
  unfold Number_toString, pretty, pretty_Z.
  destruct n as [|p|p]; [done| |done].
  apply (pretty_N_nonempty (N.pos p)).
Qed.

Lemma Number_toString_no_comma (n : Z) :
  ","%char ∉ String.list_ascii_of_string (Number_toString n).
Proof.
  intros Hc%Number_toString_chars. simpl in Hc.
  repeat (apply elem_of_cons in Hc as [Hc|Hc]; [discriminate Hc|]).
  by apply elem_of_nil in Hc.
Qed.

(** ** The index key *)

(** Two strings that agree up to and including their first comma. *)
Lemma comma_split (p q r r' : string) :
  ","%char ∉ String.list_ascii_of_string p →
  ","%char ∉ String.list_ascii_of_string q →
  p +:+ "," +:+ r = q +:+ "," +:+ r' → p = q ∧ r = r'.
Proof.
  revert q. induction p as [|c p IH]; intros [|d q] Hp Hq; simpl.
  - intros [= Hr]. by subst.
  - intros [= <- _]. exfalso. apply Hq. simpl. apply list_elem_of_here.
  - intros [= -> _]. exfalso. apply Hp. simpl. apply list_elem_of_here.
  - intros [= -> Heq]. simpl in Hp, Hq.
    apply not_elem_of_cons in Hp as [_ Hp].
    apply not_elem_of_cons in Hq as [_ Hq].
    by destruct (IH q Hp Hq Heq) as [-> ->].
Qed.

Lemma comma_in_join (p r : string) :
  ","%char ∈ String.list_ascii_of_string (p +:+ "," +:+ r).
Proof.
  rewrite chars_app. apply elem_of_app. right. simpl. apply list_elem_of_here.
Qed.

Lemma append_nonempty (p r : string) : p ≠ "" → p +:+ r ≠ "".
Proof. by destruct p. Qed.

Lemma Array_join_numbers_inj (l l' : list Z) :
  Array_join "," (Number_toString <$> l)
    = Array_join "," (Number_toString <$> l') →
  l = l'.
Proof.
  revert l'. induction l as [|a [|b l] IH]; intros [|a' [|b' l']]; simpl;
    try done.
  - intros H. symmetry in H. by apply Number_toString_nonempty in H.
  - intros H. symmetry in H.
    by apply append_nonempty in H; [|apply Number_toString_nonempty].
  - intros H. by apply Number_toString_nonempty in H.
  - intros H. f_equal. by apply (inj pretty).
  - intros H. exfalso. apply (Number_toString_no_comma a).
    rewrite H. apply comma_in_join.
  - intros H. by apply append_nonempty in H; [|apply Number_toString_nonempty].
  - intros H. exfalso. apply (Number_toString_no_comma a').
    rewrite <-H. apply comma_in_join.
  - intros H.
    apply comma_split in H as [Ha Hrest]; try apply Number_toString_no_comma.
    apply (inj pretty) in Ha as ->. f_equal. by apply (IH (b' :: l')).
Qed.

(** Indices with the same key get the same answer from the check. *)
Lemma index_toString_checkIndex (i j : StepIndex) :
  index_toString i = index_toString j →
  ∀ current, checkIndex i current = checkIndex j current.
Proof.
  assert (Hmixed : ∀ (a : Z) (l : list Z),
    Number_toString a = Array_join "," (Number_toString <$> l) → l = [a]).
  { intros a l H. by apply (Array_join_numbers_inj [a] l) in H. }
  destruct i as [a|l], j as [b|l']; simpl; intros H current.
  - by apply (inj pretty) in H as ->.
  - apply Hmixed in H as ->. apply Single_as_Multi.
  - symmetry in H. apply Hmixed in H as ->. symmetry. apply Single_as_Multi.
  - by apply Array_join_numbers_inj in H as ->.
Qed.

(** X2. The key tells indices apart exactly: two arrays have the same key
    only when they are the same list, element for element and in the same
    order; two single indices only when they are the same number; a single
    index and an array only when the array holds just that number. *)
Theorem index_toString_exact :
  (∀ l l' : list Z,
      index_toString (Multi l) = index_toString (Multi l') ↔ l = l') ∧
  (∀ a b : Z, index_toString (Single a) = index_toString (Single b) ↔ a = b) ∧
  (∀ (a : Z) (l : list Z),
      index_toString (Single a) = index_toString (Multi l) ↔ l = [a]).
Proof.
  split_and!.
  - intros l l'. split; [apply Array_join_numbers_inj | by intros ->].
  - intros a b. simpl. unfold Number_toString.
    split; [apply (inj pretty) | by intros ->].
  - intros a l. split; [|by intros ->].
    simpl. intros H. by apply (Array_join_numbers_inj [a] l) in H.
Qed.

(** X3. When React finds the dependencies of two renders equal and so does
    not run the effect again, running it would have done the same as before
    for the same ref binding: the active step is the same and the two
    indices get the same answer from the check. *)
Theorem equal_deps_same_effect {R : Type} (changeSpot changeSpot' : positive)
    (current current' : option Z) (index index' : StepIndex)
    (mounted : option positive) :
  areHookInputsEqual (AttachStep_deps changeSpot' current' index')
                     (AttachStep_deps changeSpot current index) = true →
  current' = current ∧
  checkIndex index' current' = checkIndex index current ∧
  @AttachStep_effect R index' current' mounted
    = AttachStep_effect index current mounted.
Proof.
  unfold areHookInputsEqual. cbn [AttachStep_deps dep_changeSpot dep_current
    dep_index].
  intros [[_ Hcur%bool_decide_eq_true]%andb_true_iff
          Hkey%bool_decide_eq_true]%andb_true_iff.
  subst current'.
  pose proof (index_toString_checkIndex index' index Hkey current) as Hcheck.
  split; [done|]. split; [done|].
  unfold AttachStep_effect. by rewrite Hcheck.
Qed.

Lemma equal_deps_same_effect_witness :
  areHookInputsEqual (AttachStep_deps 1%positive (Some 7) (Multi [7]))
                     (AttachStep_deps 1%positive (Some 7) (Single 7)) = true ∧
  @AttachStep_effect Z (Multi [7]) (Some 7) (Some 3%positive)
    = AttachStep_effect (Single 7) (Some 7) (Some 3%positive).
Proof.
  split; [vm_compute; reflexivity|].
  apply (equal_deps_same_effect 1%positive 1%positive (Some 7) (Some 7)
           (Single 7) (Multi [7]) (Some 3%positive)).
  vm_compute. reflexivity.
Defined.

(** ** Runs of the effect *)

(** X4. Whatever the index, the active step, the ref binding and the
    engine, a run of the effect is one of three: nothing; a single request
    for the view the ref is bound to, when the engine never answers; or that
    request followed by a single [changeSpot] carrying the engine's answer
    for that view. So it never requests twice, never measures a view other
    than the bound one, and never calls [changeSpot] without an answer. *)
Theorem effect_run_shape :
  ∀ (R : Type) (index : StepIndex) (current : option Z)
    (mounted : option positive) (engine : positive → option (R * R * R * R)),
    let trace := run engine (AttachStep_effect index current mounted) in
    (trace = [] ∧ (checkIndex index current = false ∨ mounted = None)) ∨
    (∃ view,
        checkIndex index current = true ∧ mounted = Some view ∧
        engine view = None ∧ trace = [MeasureRequested view]) ∨
    (∃ view x y width height,
        checkIndex index current = true ∧ mounted = Some view ∧
        engine view = Some (x, y, width, height) ∧
        trace = [MeasureRequested view;
                 SpotChanged {| Spot.height := height; Spot.width := width;
                                Spot.x := x; Spot.y := y |}]).
Proof.
  intros R index current mounted engine. unfold AttachStep_effect.
  destruct (checkIndex index current); [|left; auto].
  destruct mounted as [view|]; [|left; auto]. right. simpl.
  destruct (engine view) as [[[[x y] width] height]|] eqn:Hengine.
  - right. exists view, x, y, width, height. by rewrite Hengine.
  - left. exists view. by rewrite Hengine.
Qed.

(** ** The wrapper and the child below it *)

Lemma AttachStep_wrapped_child_witness :
  typeof_type (el_type card) = "function" ∧
  element_resolved card ∧
  ∃ inner,
    el_props (AttachStep card None 1%positive) !! "children"
      = Some (JElem inner) ∧
    el_type inner = el_type card ∧
    el_key inner = Some "first" ∧
    el_props inner !! "style" = Some (JObj {[ "margin" := JNum 8 ]}).
Proof.
  split; [reflexivity|]. split; [exact card_resolved|].
  destruct (AttachStep_wrapped_child card None 1%positive eq_refl
              card_resolved)
    as (inner & Hchild & Hty & Hkey & _ & Hprops & _).
  exists inner. split; [exact Hchild|]. split; [exact Hty|].
  split; [exact Hkey|].
  rewrite Hprops; [vm_compute; reflexivity | discriminate].
Defined.

Lemma AttachStep_wrapped_style children fill childRef :
  typeof_type (el_type children) = "function" →
  el_props (AttachStep children fill childRef) !! "style"
    = Some (JObj (object_spread
                    (nullish (js_get (el_props children) "style") (JObj ∅))
                  ∪ baseStyle (default false fill))).
Proof.
  intros Hty. rewrite AttachStep_wrapped by done.
  by rewrite createElement_lookup_View.
Qed.



(** X7. For a function component as child, [fill] makes a difference to the
    rendered element exactly when the child's style has no [alignSelf] of
    its own: a child that sets [alignSelf] renders the same with and without
    [fill]. *)
Theorem AttachStep_fill_matters (children : element) (childRef : positive) :
  typeof_type (el_type children) = "function" →
  AttachStep children (Some true) childRef
    = AttachStep children (Some false) childRef
  ↔ is_Some (object_spread
               (nullish (js_get (el_props children) "style") (JObj ∅))
             !! "alignSelf").
Proof.
  intros Hty.
  set (childStyle :=
    object_spread (nullish (js_get (el_props children) "style") (JObj ∅))).
  split.
  - intros Heq.
    apply (f_equal (λ e, el_props e !! "style")) in Heq.
    rewrite !AttachStep_wrapped_style in Heq by done.
    fold childStyle in Heq. injection Heq as Heq.
    apply (f_equal (λ m : gmap string jsval, m !! "alignSelf")) in Heq.
    destruct (childStyle !! "alignSelf") as [v|] eqn:Hchild; [by eexists|].
    rewrite !lookup_union_r in Heq by done.
    unfold baseStyle in Heq. rewrite !lookup_singleton_eq in Heq.
    discriminate Heq.
  - intros [v Hv]. rewrite !AttachStep_wrapped by done.
    fold childStyle.
    assert (Hmerged : childStyle ∪ baseStyle (default false (Some true))
                      = childStyle ∪ baseStyle (default false (Some false))).
    { apply map_eq. intros k. rewrite !lookup_union.
      destruct (decide (k = "alignSelf")) as [->|Hk].
      - rewrite Hv. unfold baseStyle. by rewrite !lookup_singleton_eq.
      - unfold baseStyle. by rewrite !lookup_singleton_ne. }
    by rewrite Hmerged.
Qed.

Lemma AttachStep_fill_matters_witness :
  typeof_type (el_type card) = "function" ∧
  AttachStep card (Some true) 1%positive
    ≠ AttachStep card (Some false) 1%positive.
Proof.
  split; [reflexivity|].
  intros Heq.
  apply (proj1 (AttachStep_fill_matters card 1%positive eq_refl)) in Heq.
  destruct Heq as [v Hv]. vm_compute in Hv. discriminate Hv.
Defined.

(** ** Styles that are not plain objects *)

Lemma indexed_from_lookup (items : list jsval) (n i : nat) :
  (list_to_map (imap (λ (j : nat) v, (pretty (n + j)%nat, v)) items)
     : gmap string jsval) !! pretty (n + i)%nat = items !! i.
Proof.
  revert n i. induction items as [|x items IH]; intros n i; [done|].
  rewrite imap_cons, list_to_map_cons.
  destruct i as [|i].
  - apply lookup_insert_eq.
  - rewrite lookup_insert_ne by (intros ?%(inj pretty); lia).
    rewrite (imap_ext _ (λ (j : nat) v, (pretty (S n + j)%nat, v)))
      by (intros j y _; simpl; by rewrite Nat.add_succ_r).
    replace (n + S i)%nat with (S n + i)%nat by lia. apply IH.
Qed.

Lemma indexed_fields_lookup (items : list jsval) (i : nat) :
  indexed_fields items !! pretty i = items !! i.
Proof. apply (indexed_from_lookup items 0 i). Qed.

Lemma indexed_fields_key (items : list jsval) (k : string) (v : jsval) :
  indexed_fields items !! k = Some v →
  ∃ i : nat, k = pretty i ∧ items !! i = Some v.
Proof.
  unfold indexed_fields. intros Hk%elem_of_list_to_map_2.
  apply elem_of_lookup_imap in Hk as (i & x & [= -> ->] & Hi). eauto.
Qed.

Lemma alignSelf_not_index (i : nat) : "alignSelf" ≠ pretty i.
Proof.
  intros Heq.
  assert (Ha : "a"%char ∈ String.list_ascii_of_string (pretty i)).
  { rewrite <-Heq. simpl. apply list_elem_of_here. }
  apply (pretty_N_chars _ (N.of_nat i)) in Ha. simpl in Ha.
  repeat (apply elem_of_cons in Ha as [Ha|Ha]; [discriminate Ha|]).
  by apply elem_of_nil in Ha.
Qed.

(** X8. When the style of a function component is an array of styles, the
    wrapper's style is an object that has the items of the array under their
    indices and the base [alignSelf], and nothing else: no property of the
    styles in the array is a property of the wrapper's style, and whatever
    [alignSelf] they set, the wrapper's is the base one. *)
Theorem AttachStep_wrapper_array_style (children : element)
    (fill : option bool) (childRef : positive) (items : list jsval) :
  typeof_type (el_type children) = "function" →
  js_get (el_props children) "style" = JArr items →
  ∃ merged,
    el_props (AttachStep children fill childRef) !! "style"
      = Some (JObj merged) ∧
    merged !! "alignSelf"
      = Some (JStr (if default false fill then "stretch" else "flex-start")) ∧
    (∀ i : nat, merged !! pretty i = items !! i) ∧
    (∀ k, k ≠ "alignSelf" → (∀ i : nat, k ≠ pretty i) → merged !! k = None).
Proof.
  intros Hty Hstyle. eexists. split; [by apply AttachStep_wrapped_style|].
  rewrite Hstyle. cbn [nullish object_spread]. unfold baseStyle.
  split_and!.
  - rewrite lookup_union_r; [apply lookup_singleton_eq|].
    destruct (indexed_fields items !! "alignSelf") as [v|] eqn:Hk; [|done].
    apply indexed_fields_key in Hk as (i & Hi & _).
    by apply alignSelf_not_index in Hi.
  - intros i. rewrite lookup_union, indexed_fields_lookup.
    rewrite lookup_singleton_ne by apply alignSelf_not_index.
    by rewrite (right_id None _).
  - intros k Hk Hidx. apply lookup_union_None. split.
    + destruct (indexed_fields items !! k) as [v|] eqn:Hv; [|done].
      apply indexed_fields_key in Hv as (i & Hi & _). by apply Hidx in Hi.
    + by apply lookup_singleton_ne.
Qed.

Lemma AttachStep_wrapper_array_style_witness :
  typeof_type (el_type listItem) = "function" ∧
  ∃ merged,
    el_props (AttachStep listItem None 1%positive) !! "style"
      = Some (JObj merged) ∧
    merged !! "alignSelf" = Some (JStr "flex-start") ∧
    merged !! "0" = Some (JObj {[ "alignSelf" := JStr "center" ]}) ∧
    merged !! "margin" = None.
Proof.
  split; [reflexivity|].
  destruct (AttachStep_wrapper_array_style listItem None 1%positive
              [JObj {[ "alignSelf" := JStr "center" ]};
               JObj {[ "margin" := JNum 4 ]}] eq_refl eq_refl)
    as (merged & Hstyle & Halign & Hitems & Hnone).
  exists merged. split; [exact Hstyle|]. split; [exact Halign|]. split.
  - exact (Hitems 0%nat).
  - apply Hnone; [discriminate|].
    intros i Hi. apply (f_equal String.list_ascii_of_string) in Hi.
    assert (Hm : "m"%char ∈ String.list_ascii_of_string (pretty i))
      by (rewrite <-Hi; apply list_elem_of_here).
    apply (pretty_N_chars _ (N.of_nat i)) in Hm. simpl in Hm.
    repeat (apply elem_of_cons in Hm as [Hm|Hm]; [discriminate Hm|]).
    by apply elem_of_nil in Hm.
Defined.

(** X9. When the style of a function component is a registered style (a
    number), a boolean or the empty string, nothing of it reaches the
    wrapper: the wrapper's style is the base style alone. *)
Theorem AttachStep_wrapper_plain_style (children : element)
    (fill : option bool) (childRef : positive) :
  typeof_type (el_type children) = "function" →
  (∃ n, js_get (el_props children) "style" = JNum n) ∨
  (∃ b, js_get (el_props children) "style" = JBool b) ∨
  js_get (el_props children) "style" = JStr "" →
  el_props (AttachStep children fill childRef) !! "style"
    = Some (JObj {[ "alignSelf" :=
                      JStr (if default false fill
                            then "stretch" else "flex-start") ]}).
Proof.
  intros Hty Hstyle. rewrite AttachStep_wrapped_style by done.
  unfold baseStyle.
  destruct Hstyle as [[n ->] | [[b ->] | ->]]; cbn [nullish object_spread];
    try (by rewrite (left_id ∅ _)).
  unfold indexed_fields. simpl. by rewrite (left_id ∅ _).
Qed.

Lemma AttachStep_wrapper_plain_style_witness :
  typeof_type (el_type badge) = "function" ∧
  js_get (el_props badge) "style" = JNum 12 ∧
  el_props (AttachStep badge (Some true) 1%positive) !! "style"
    = Some (JObj {[ "alignSelf" := JStr "stretch" ]}).
Proof.
  split; [reflexivity|]. split; [reflexivity|].
  apply (AttachStep_wrapper_plain_style badge (Some true) 1%positive eq_refl).
  left. exists 12. reflexivity.
Defined.

(** ** Merging the child's style *)

(** C4. At the function component [listItem], whose style is the array
    [[{ alignSelf: "center" }, { margin: 4 }]] and with [fill] left out, the
    wrapper is a [View] that holds the ref, is neither collapsable nor
    focusable and carries the test identifier, but its style is not the
    merge of the base style with the child's style: [alignSelf] is the base
    ["flex-start"], not the child's ["center"], there is no [margin], and
    the two styles of the array sit under the keys ["0"] and ["1"]. *)
Theorem AttachStep_listItem_style_not_merged :
  typeof_type (el_type listItem) = "function" ∧
  js_get (el_props listItem) "style"
    = JArr [JObj {[ "alignSelf" := JStr "center" ]};
            JObj {[ "margin" := JNum 4 ]}] ∧
  el_type (AttachStep listItem None 1%positive) = View ∧
  el_ref (AttachStep listItem None 1%positive) = JRef 1%positive ∧
  el_props (AttachStep listItem None 1%positive) !! "collapsable"
    = Some (JBool false) ∧
  el_props (AttachStep listItem None 1%positive) !! "focusable"
    = Some (JBool false) ∧
  el_props (AttachStep listItem None 1%positive) !! "testID"
    = Some (JStr "attach-wrapper-view") ∧
  ∃ merged,
    el_props (AttachStep listItem None 1%positive) !! "style"
      = Some (JObj merged) ∧
    merged !! "alignSelf" = Some (JStr "flex-start") ∧
    merged !! "margin" = None ∧
    merged !! "0" = Some (JObj {[ "alignSelf" := JStr "center" ]}) ∧
    merged !! "1" = Some (JObj {[ "margin" := JNum 4 ]}).
Proof.
  split_and!; try (vm_compute; reflexivity).
  eexists. split; [vm_compute; reflexivity|].
  split_and!; vm_compute; reflexivity.
Qed.

(** X10. When [style ?? {}] of a function component is a plain object (the
    child's style is an object, or [undefined] or [null] and the object is
    empty), the wrapper is a [View] that holds the ref, has no key, is
    neither collapsable nor focusable, carries the test identifier, and its
    style is that object merged over the base style: every property of the
    child's style is in it with the child's value, [alignSelf] is
    ["stretch"] for [fill] and ["flex-start"] otherwise when the child's
    style does not set it, and there is nothing else in it. *)
Theorem AttachStep_wrapper_object_style (children : element)
    (fill : option bool) (childRef : positive) (st : gmap string jsval) :
  typeof_type (el_type children) = "function" →
  nullish (js_get (el_props children) "style") (JObj ∅) = JObj st →
  el_type (AttachStep children fill childRef) = View ∧
  el_ref (AttachStep children fill childRef) = JRef childRef ∧
  el_key (AttachStep children fill childRef) = None ∧
  el_props (AttachStep children fill childRef) !! "collapsable"
    = Some (JBool false) ∧
  el_props (AttachStep children fill childRef) !! "focusable"
    = Some (JBool false) ∧
  el_props (AttachStep children fill childRef) !! "testID"
    = Some (JStr "attach-wrapper-view") ∧
  ∃ merged,
    el_props (AttachStep children fill childRef) !! "style"
      = Some (JObj merged) ∧
    (∀ k v, st !! k = Some v → merged !! k = Some v) ∧
    (st !! "alignSelf" = None →
     merged !! "alignSelf"
       = Some (JStr (if default false fill
                     then "stretch" else "flex-start"))) ∧
    (∀ k, k ≠ "alignSelf" → st !! k = None → merged !! k = None).
Proof.
  intros Hty Hst.
  destruct (AttachStep_wrapper children fill childRef Hty)
    as (Htype & Href & Hkey & Hcoll & Hfoc & Hid & merged & Hstyle
        & Hchild & Halign & Hnone & _).
  rewrite Hst in Hchild, Halign, Hnone. cbn [object_spread] in *.
  split_and!; try done. by exists merged.
Qed.

Lemma AttachStep_wrapper_object_style_witness :
  typeof_type (el_type card) = "function" ∧
  nullish (js_get (el_props card) "style") (JObj ∅)
    = JObj {[ "margin" := JNum 8 ]} ∧
  ∃ merged,
    el_props (AttachStep card (Some true) 1%positive) !! "style"
      = Some (JObj merged) ∧
    merged !! "margin" = Some (JNum 8) ∧
    merged !! "alignSelf" = Some (JStr "stretch") ∧
    merged !! "0" = None.
Proof.
  split; [reflexivity|]. split; [vm_compute; reflexivity|].
  destruct (AttachStep_wrapper_object_style card (Some true) 1%positive
              {[ "margin" := JNum 8 ]} eq_refl)
    as (_ & _ & _ & _ & _ & _ & merged & Hstyle & Hchild & Halign & Hnone);
    [vm_compute; reflexivity|].
  exists merged. split; [exact Hstyle|]. split_and!.
  - apply Hchild. vm_compute. reflexivity.
  - apply Halign. vm_compute. reflexivity.
  - apply Hnone; [discriminate | vm_compute; reflexivity].
Defined.
